(** * The portfolio terminal menu served over SSH: model, update and view

    A shallow embedding of [main.go]: the per-session [model], the handler
    [teaHandler] that builds it, the transition function [Update] and the
    renderer [View], followed by the properties of the design document that
    concern them.

    Conventions.
    - Go's [int] is a 64-bit two's complement integer on the targets this
      server is built for; it is carried as a [Z] and the two places where
      the program does arithmetic on it ([m.Choice++], [m.Choice--]) wrap
      around explicitly ([GoInt.wrap]).
    - Go strings are byte strings: [String.string].
    - Packages the program imports keep their names as modules ([tea],
      [lipgloss], [browser], [fmt], [strings], [ssh], [bubbletea]).  What
      such a package does outside the program's control (how a terminal
      renderer paints a style, whether launching a browser works) is a
      component of the environment: a field of [lipgloss.Renderer],
      respectively of [World]. *)

From Stdlib Require Import ZArith String Ascii List Bool Lia.
Import ListNotations.
Local Open Scope string_scope.
Local Open Scope Z_scope.

(** ** Go's machine integers *)

Module GoInt.

Definition bits : Z := 64.
Definition modulus : Z := 2 ^ bits.
Definition half_modulus : Z := 2 ^ (bits - 1).
Definition min_int : Z := - half_modulus.
Definition max_int : Z := half_modulus - 1.

Definition in_range (z : Z) : Prop := min_int <= z <= max_int.

(** Signed wrap-around: the representative of [z] modulo [2^64] in
    [[min_int, max_int]]. *)
Definition wrap (z : Z) : Z := (z + half_modulus) mod modulus - half_modulus.

(** [x++] and [x--] on an [int]. *)
Definition incr (z : Z) : Z := wrap (z + 1).
Definition decr (z : Z) : Z := wrap (z - 1).

End GoInt.

(** ** The pieces of the Go library the program uses *)

Definition nl : string := String "010" EmptyString.

Module strings.

(** ASCII white space.  Go's [unicode.IsSpace] also knows U+0085, U+00A0
    and a few wider code points; none occurs in the text this program
    trims. *)
Definition isSpace (c : ascii) : bool :=
  let n := nat_of_ascii c in
  ((9 <=? n) && (n <=? 13))%nat || (n =? 32)%nat.

Fixpoint TrimLeft (s : string) : string :=
  match s with
  | EmptyString => EmptyString
  | String c rest => if isSpace c then TrimLeft rest else s
  end.

Fixpoint TrimRight (s : string) : string :=
  match s with
  | EmptyString => EmptyString
  | String c rest =>
      match TrimRight rest with
      | EmptyString => if isSpace c then EmptyString else String c EmptyString
      | rest' => String c rest'
      end
  end.

Definition TrimSpace (s : string) : string := TrimRight (TrimLeft s).

End strings.

Module fmt.

(** [fmt.Sprintf] for string operands: the verb [%s], the escape [%%],
    and Go's diagnostics for a verb without operand and for operands left
    over.  No other verb occurs in the program. *)
Definition extra (args : list string) : string :=
  match args with
  | [] => EmptyString
  | _ => "%!(EXTRA " ++
         String.concat ", " (map (fun a => "string=" ++ a) args) ++ ")"
  end.

Fixpoint Sprintf (format : string) (args : list string) : string :=
  match format with
  | EmptyString => extra args
  | String c rest =>
      if (c =? "%")%char then
        match rest with
        | EmptyString => "%!(NOVERB)" ++ extra args
        | String v rest' =>
            if (v =? "s")%char then
              match args with
              | a :: args' => a ++ Sprintf rest' args'
              | [] => "%!s(MISSING)" ++ Sprintf rest' []
              end
            else if (v =? "%")%char then String "%" (Sprintf rest' args)
            else String c (Sprintf rest args)
        end
      else String c (Sprintf rest args)
  end.

End fmt.

Module lipgloss.

(** A colour is named by its ANSI code. *)
Definition Color (code : string) : string := code.

(** The rules a style accumulates through its builder methods. *)
Inductive Rule : Type :=
| MarginLeftRule (cells : Z)
| BoldRule (on : bool)
| ForegroundRule (color : string).

(** A renderer paints a text under a list of rules, for the terminal of
    one session.  How it does so is the terminal library's business. *)
Record Renderer : Type := { paint : list Rule -> string -> string }.

(** A style remembers the renderer that created it. *)
Record Style : Type := { owner : Renderer; rules : list Rule }.

Definition NewStyle (r : Renderer) : Style := {| owner := r; rules := [] |}.

Definition set (s : Style) (x : Rule) : Style :=
  {| owner := owner s; rules := rules s ++ [x] |}.

Definition MarginLeft (s : Style) (n : Z) : Style := set s (MarginLeftRule n).
Definition Bold (s : Style) (b : bool) : Style := set s (BoldRule b).
Definition Foreground (s : Style) (c : string) : Style := set s (ForegroundRule c).

Definition Render (s : Style) (text : string) : string :=
  paint (owner s) (rules s) text.

End lipgloss.

Module ssh.

Record Window : Type := { Width : Z; Height : Z }.

(** What the handler reads from a session: the window of its pty (Go's
    zero value when there is none) and the terminal it renders to. *)
Record Session : Type := { PtyWindow : Window; Terminal : lipgloss.Renderer }.

End ssh.

Module bubbletea.

Definition MakeRenderer (s : ssh.Session) : lipgloss.Renderer := ssh.Terminal s.

End bubbletea.

Module tea.

(** The messages the program loop delivers.  A key message is carried by
    the name [msg.String()] gives it; [OtherMsg] stands for every message
    type the type switch of [Update] has no case for. *)
Inductive Msg : Type :=
| WindowSizeMsg (Width Height : Z)
| KeyMsg (name : string)
| OtherMsg.

(** The commands the program returns to the loop. *)
Inductive Command : Type := Quit.

(** A [tea.Cmd] may be [nil]. *)
Definition Cmd : Type := option Command.

Inductive ProgramOption : Type := WithAltScreen.

End tea.

(** ** The world outside the session *)

(** Launching a browser succeeds or fails for reasons the program does not
    control: [openOutcome k] tells whether the launch number [k] works.
    [opened] lists the URLs handed to the launcher so far. *)
Record World : Type := { openOutcome : nat -> bool; opened : list string }.

Definition IO (A : Type) : Type := World -> A * World.

Definition ret {A : Type} (a : A) : IO A := fun w => (a, w).

Definition bind {A B : Type} (c : IO A) (k : A -> IO B) : IO B :=
  fun w => let (a, w') := c w in k a w'.

Declare Scope io_scope.
Delimit Scope io_scope with io.
Notation "x <- c ;; k" := (bind c (fun x => k))
  (at level 61, c at next level, right associativity) : io_scope.
Notation "c ;;; k" := (bind c (fun _ => k))
  (at level 61, right associativity) : io_scope.

Module browser.

Definition error : Type := string.

(** [browser.OpenURL]: hands the URL to the system's launcher and reports
    whether that worked. *)
Definition OpenURL (url : string) : IO (option error) :=
  fun w =>
    let result :=
      if openOutcome w (length (opened w)) then None
      else Some "exec: launcher failed" in
    (result, {| openOutcome := openOutcome w; opened := opened w ++ [url] |}).

End browser.

(** ** The program *)

Definition dotChar : string :=
  String " " (String "226" (String "128" (String "162" (String " " EmptyString)))).

Definition RESUME_URL : string :=
  "https://drive.google.com/file/d/1azKao3idMCDqJdCHtCTlvc4U3ABYTtJ7/view?usp=sharing".
Definition GITHUB_URL : string := "https://github.com/KaustubhPatange".
Definition LINKEDIN_URL : string := "https://www.linkedin.com/in/kaustubhpatange/".
Definition TWITTER_URL : string := "https://twitter.com/KP206".

Record model : Type := {
  Width : Z;
  Height : Z;
  Choice : Z;
  Chosen : bool;
  mainStyle : lipgloss.Style;
  aboutStyle : lipgloss.Style;
  aboutNameStyle : lipgloss.Style;
  checkboxStyle : lipgloss.Style;
  subtleStyle : lipgloss.Style;
  dotStyle : string
}.

(** Assignments to a field of the receiver's copy. *)
Definition set_Width (m : model) (v : Z) : model :=
  {| Width := v; Height := Height m; Choice := Choice m; Chosen := Chosen m;
     mainStyle := mainStyle m; aboutStyle := aboutStyle m;
     aboutNameStyle := aboutNameStyle m; checkboxStyle := checkboxStyle m;
     subtleStyle := subtleStyle m; dotStyle := dotStyle m |}.

Definition set_Height (m : model) (v : Z) : model :=
  {| Width := Width m; Height := v; Choice := Choice m; Chosen := Chosen m;
     mainStyle := mainStyle m; aboutStyle := aboutStyle m;
     aboutNameStyle := aboutNameStyle m; checkboxStyle := checkboxStyle m;
     subtleStyle := subtleStyle m; dotStyle := dotStyle m |}.

Definition set_Choice (m : model) (v : Z) : model :=
  {| Width := Width m; Height := Height m; Choice := v; Chosen := Chosen m;
     mainStyle := mainStyle m; aboutStyle := aboutStyle m;
     aboutNameStyle := aboutNameStyle m; checkboxStyle := checkboxStyle m;
     subtleStyle := subtleStyle m; dotStyle := dotStyle m |}.

Definition teaHandler (s : ssh.Session) : model * list tea.ProgramOption :=
  let pty := ssh.PtyWindow s in
  let renderer := bubbletea.MakeRenderer s in
  let mainStyle := lipgloss.MarginLeft (lipgloss.NewStyle renderer) 2 in
  let checkboxStyle :=
    lipgloss.Foreground (lipgloss.Bold (lipgloss.NewStyle renderer) false)
                        (lipgloss.Color "213") in
  let aboutStyle :=
    lipgloss.Foreground (lipgloss.Bold (lipgloss.NewStyle renderer) true)
                        (lipgloss.Color "246") in
  let aboutNameStyle :=
    lipgloss.Foreground (lipgloss.Bold (lipgloss.NewStyle renderer) true)
                        (lipgloss.Color "33") in
  let subtleStyle :=
    lipgloss.Foreground (lipgloss.NewStyle renderer) (lipgloss.Color "241") in
  let dotStyle :=
    lipgloss.Render
      (lipgloss.Foreground (lipgloss.NewStyle renderer) (lipgloss.Color "236"))
      dotChar in
  let m :=
    {| Width := ssh.Width pty;
       Height := ssh.Height pty;
       Choice := 0;
       Chosen := false;
       mainStyle := mainStyle;
       aboutStyle := aboutStyle;
       aboutNameStyle := aboutNameStyle;
       checkboxStyle := checkboxStyle;
       subtleStyle := subtleStyle;
       dotStyle := dotStyle |} in
  (m, [tea.WithAltScreen]).

Definition Init (m : model) : tea.Cmd := None.

(** [case a, b:] of a switch over a string. *)
Definition is_one_of (s a b : string) : bool := (s =? a)%string || (s =? b)%string.

Definition Update (m : model) (msg : tea.Msg) : IO (model * tea.Cmd) :=
  match msg with
  | tea.WindowSizeMsg width height =>
      let m := set_Width m width in
      let m := set_Height m height in
      ret (m, None)
  | tea.KeyMsg key =>
      if is_one_of key "q" "ctrl+c" then
        ret (m, Some tea.Quit)
      else if is_one_of key "j" "down" then
        let m := set_Choice m (GoInt.incr (Choice m)) in
        let m := if 3 <? Choice m then set_Choice m 3 else m in
        ret (m, None)
      else if is_one_of key "k" "up" then
        let m := set_Choice m (GoInt.decr (Choice m)) in
        let m := if Choice m <? 0 then set_Choice m 0 else m in
        ret (m, None)
      else if (key =? "enter")%string then
        (if Choice m =? 0 then (browser.OpenURL RESUME_URL ;;; ret tt)
         else if Choice m =? 1 then (browser.OpenURL GITHUB_URL ;;; ret tt)
         else if Choice m =? 2 then (browser.OpenURL LINKEDIN_URL ;;; ret tt)
         else if Choice m =? 3 then (browser.OpenURL TWITTER_URL ;;; ret tt)
         else ret tt) ;;;
        ret (m, None)
      else ret (m, None)
  | tea.OtherMsg => ret (m, None)
  end%io.

(** The raw string literal of [View], between its back quotes. *)
Definition aboutLiteral : string :=
  nl ++
  "Hi I'm %s," ++ nl ++
  nl ++
  "A self taught developer specialized in many software domains" ++ nl ++
  "including Mobile Apps, Web, Backend, Gen AI." ++ nl ++
  nl ++
  "I'm currently working at an AI startup as a FullStack " ++ nl ++
  "Engineer." ++ nl ++
  nl ++
  "I'm fluent in Python, Go, Typescript, Javascript, Kotlin." ++ nl.

Definition checkbox (checkboxStyle : lipgloss.Style) (label : string)
    (checked : bool) : string :=
  if checked then lipgloss.Render checkboxStyle ("[x] " ++ label)
  else fmt.Sprintf "[ ] %s" [label].

(** The local variables [about], [tpl] and [choices] of [View]. *)
Definition View_about (m : model) : string :=
  lipgloss.Render (aboutStyle m)
    (fmt.Sprintf (strings.TrimSpace aboutLiteral)
       [lipgloss.Render (aboutNameStyle m) "Kaustubh Patange"]).

Definition View_tpl (m : model) : string :=
  lipgloss.Render (subtleStyle m) "j/k, up/down: select" ++ dotStyle m ++
  lipgloss.Render (subtleStyle m) "enter: choose" ++ dotStyle m ++
  lipgloss.Render (subtleStyle m) "q, ctrl+c: quit".

Definition View_choices (m : model) : string :=
  let c := Choice m in
  fmt.Sprintf ("%s" ++ nl ++ "%s" ++ nl ++ "%s" ++ nl ++ "%s")
    [ checkbox (checkboxStyle m) "Resume / CV" (c =? 0);
      checkbox (checkboxStyle m) "GitHub" (c =? 1);
      checkbox (checkboxStyle m) "Linkedin" (c =? 2);
      checkbox (checkboxStyle m) "Twitter" (c =? 3) ].

Definition View (m : model) : string :=
  let about := View_about m in
  let tpl := View_tpl m in
  let choices := View_choices m in
  let s := fmt.Sprintf ("%s" ++ nl ++ nl ++ "%s" ++ nl ++ nl ++ "%s")
             [about; choices; tpl] in
  lipgloss.Render (mainStyle m) (nl ++ s ++ nl ++ nl).

(** ** Sessions

    The program loop of Bubble Tea owns the model of a session: it hands
    every message it receives to [Update], keeps the model that comes back,
    carries out the command and draws [View] of the new model.  The loop
    stops when the quit command has taken effect or the connection drops,
    so the messages a session sees form a finite sequence. *)

Fixpoint updates (m : model) (msgs : list tea.Msg) : IO model :=
  match msgs with
  | [] => ret m
  | msg :: rest => (r <- Update m msg ;; updates (fst r) rest)%io
  end.

(** What the loop observes after each message: the model and the command
    [Update] returned, and the frame drawn from that model. *)
Fixpoint steps (m : model) (msgs : list tea.Msg)
    : IO (list (model * tea.Cmd * string)) :=
  match msgs with
  | [] => ret []
  | msg :: rest =>
      (r <- Update m msg ;;
       later <- steps (fst r) rest ;;
       ret ((fst r, snd r, View (fst r)) :: later))%io
  end.

(** A world in which nothing has been opened yet. *)
Definition fresh_world (outcome : nat -> bool) : World :=
  {| openOutcome := outcome; opened := [] |}.

(** A terminal without colours or margins, and a session on it. *)
Definition dumb_terminal : lipgloss.Renderer :=
  {| lipgloss.paint := fun _ text => text |}.

Definition session80x24 : ssh.Session :=
  {| ssh.PtyWindow := {| ssh.Width := 80; ssh.Height := 24 |};
     ssh.Terminal := dumb_terminal |}.

(** The three components of what [Update] yields in a world. *)
Definition model_of (r : model * tea.Cmd * World) : model := fst (fst r).
Definition cmd_of (r : model * tea.Cmd * World) : tea.Cmd := snd (fst r).
Definition world_of (r : model * tea.Cmd * World) : World := snd r.

(** The world after one more URL went to the launcher. *)
Definition launched (w : World) (url : string) : World :=
  {| openOutcome := openOutcome w; opened := opened w ++ [url] |}.

(** ** The vocabulary of the design document *)

(** The menu: the labels [View] prints, top to bottom, each with the URL
    the [enter] case of [Update] opens at that index. *)
Definition menuEntries : list (string * string) :=
  [ ("Resume / CV", RESUME_URL);
    ("GitHub", GITHUB_URL);
    ("Linkedin", LINKEDIN_URL);
    ("Twitter", TWITTER_URL) ].

(** The semantic events, and the one a message stands for. *)
Inductive Event : Type :=
| Resize (width height : Z)
| NavigateDown
| NavigateUp
| Activate
| QuitEvent
| Unrecognized.

Definition decode (msg : tea.Msg) : Event :=
  match msg with
  | tea.WindowSizeMsg width height => Resize width height
  | tea.KeyMsg key =>
      if is_one_of key "q" "ctrl+c" then QuitEvent
      else if is_one_of key "j" "down" then NavigateDown
      else if is_one_of key "k" "up" then NavigateUp
      else if (key =? "enter")%string then Activate
      else Unrecognized
  | tea.OtherMsg => Unrecognized
  end.

(** A checklist line as the design words it: [[x] label] in the checkbox
    style for the selected entry, plain [[ ] label] for any other. *)
Definition entry_line (m : model) (i : nat) (label : string) : string :=
  if Choice m =? Z.of_nat i
  then lipgloss.Render (checkboxStyle m) ("[x] " ++ label)
  else "[ ] " ++ label.

Definition checklist (m : model) : list string :=
  map (fun e => entry_line m (fst e) (fst (snd e)))
      (combine (seq 0 (length menuEntries)) menuEntries).

(** The URL the [enter] case of [Update] hands to the launcher when
    [m.Choice] is [c], if any. *)
Definition entered_url (c : Z) : option string :=
  if c =? 0 then Some RESUME_URL
  else if c =? 1 then Some GITHUB_URL
  else if c =? 2 then Some LINKEDIN_URL
  else if c =? 3 then Some TWITTER_URL
  else None.

(** The fields of a model that are bound when the session starts. *)
Definition same_bindings (m m' : model) : Prop :=
  Chosen m' = Chosen m /\
  mainStyle m' = mainStyle m /\
  aboutStyle m' = aboutStyle m /\
  aboutNameStyle m' = aboutNameStyle m /\
  checkboxStyle m' = checkboxStyle m /\
  subtleStyle m' = subtleStyle m /\
  dotStyle m' = dotStyle m.

(** A message that reports no negative dimension. *)
Definition reports_natural_size (msg : tea.Msg) : Prop :=
  match msg with
  | tea.WindowSizeMsg width height => 0 <= width /\ 0 <= height
  | _ => True
  end.

(** A model whose integer fields are Go [int]s. *)
Definition well_formed (m : model) : Prop :=
  GoInt.in_range (Width m) /\ GoInt.in_range (Height m) /\ GoInt.in_range (Choice m).

(** A model at each end of the [int] range, for the arithmetic of
    [m.Choice++] and [m.Choice--]. *)
Definition model_at (c : Z) : model := set_Choice (fst (teaHandler session80x24)) c.

(** ** Vocabulary for whole sessions *)

(** The messages that move the selection. *)
Definition is_navigation (msg : tea.Msg) : bool :=
  match decode msg with
  | NavigateDown | NavigateUp => true
  | _ => false
  end.

(** The messages that are the [enter] key. *)
Definition is_enter (msg : tea.Msg) : bool :=
  match decode msg with
  | Activate => true
  | _ => false
  end.

(** A message that is not a window-size message. *)
Definition not_a_resize (msg : tea.Msg) : Prop :=
  match msg with
  | tea.WindowSizeMsg _ _ => False
  | _ => True
  end.

(** The URLs of the menu. *)
Definition menu_urls : list string := map snd menuEntries.

(** * Properties *)

(** ** Machine integers *)

Lemma modulus_value : GoInt.modulus = 18446744073709551616.
Proof. reflexivity. Qed.

Lemma half_modulus_value : GoInt.half_modulus = 9223372036854775808.
Proof. reflexivity. Qed.

Lemma wrap_in_range (z : Z) : GoInt.in_range z -> GoInt.wrap z = z.
Proof.
  unfold GoInt.in_range, GoInt.min_int, GoInt.max_int, GoInt.wrap.
  rewrite modulus_value, half_modulus_value. intros Hz.
  rewrite Z.mod_small; lia.
Qed.

Lemma incr_below_max (z : Z) :
  GoInt.in_range z -> z < GoInt.max_int -> GoInt.incr z = z + 1.
Proof.
  intros Hz Hlt. unfold GoInt.incr. apply wrap_in_range.
  unfold GoInt.in_range in *. lia.
Qed.

Lemma decr_above_min (z : Z) :
  GoInt.in_range z -> GoInt.min_int < z -> GoInt.decr z = z - 1.
Proof.
  intros Hz Hlt. unfold GoInt.decr. apply wrap_in_range.
  unfold GoInt.in_range in *. lia.
Qed.

Lemma incr_max_int : GoInt.incr GoInt.max_int = GoInt.min_int.
Proof. reflexivity. Qed.

Lemma decr_min_int : GoInt.decr GoInt.min_int = GoInt.max_int.
Proof. reflexivity. Qed.

(** ** One call of [Update], case by case *)

Lemma Update_WindowSizeMsg (m : model) (width height : Z) (w : World) :
  Update m (tea.WindowSizeMsg width height) w
  = (set_Height (set_Width m width) height, None, w).
Proof. reflexivity. Qed.

Lemma Update_OtherMsg (m : model) (w : World) :
  Update m tea.OtherMsg w = (m, None, w).
Proof. reflexivity. Qed.

(** The key cases follow [decode]. *)
Lemma Update_key_quit (m : model) (key : string) (w : World) :
  decode (tea.KeyMsg key) = QuitEvent ->
  Update m (tea.KeyMsg key) w = (m, Some tea.Quit, w).
Proof.
  unfold decode, Update. intros H.
  repeat match type of H with
         | (if ?c then _ else _) = _ => destruct c
         end; try discriminate; reflexivity.
Qed.

Lemma Update_key_down (m : model) (key : string) (w : World) :
  decode (tea.KeyMsg key) = NavigateDown ->
  Update m (tea.KeyMsg key) w
  = (set_Choice m (if 3 <? GoInt.incr (Choice m) then 3 else GoInt.incr (Choice m)),
     None, w).
Proof.
  unfold decode, Update. intros H.
  repeat match type of H with
         | (if ?c then _ else _) = _ => destruct c
         end; try discriminate.
  cbn. destruct (3 <? GoInt.incr (Choice m)); reflexivity.
Qed.

Lemma Update_key_up (m : model) (key : string) (w : World) :
  decode (tea.KeyMsg key) = NavigateUp ->
  Update m (tea.KeyMsg key) w
  = (set_Choice m (if GoInt.decr (Choice m) <? 0 then 0 else GoInt.decr (Choice m)),
     None, w).
Proof.
  unfold decode, Update. intros H.
  repeat match type of H with
         | (if ?c then _ else _) = _ => destruct c
         end; try discriminate.
  cbn. destruct (GoInt.decr (Choice m) <? 0); reflexivity.
Qed.

Lemma Update_key_enter (m : model) (key : string) (w : World) :
  decode (tea.KeyMsg key) = Activate ->
  Update m (tea.KeyMsg key) w
  = (m, None, match entered_url (Choice m) with
              | Some url => launched w url
              | None => w
              end).
Proof.
  unfold decode, Update, entered_url. intros H.
  repeat match type of H with
         | (if ?c then _ else _) = _ => destruct c
         end; try discriminate.
  unfold bind, ret, browser.OpenURL, launched.
  repeat match goal with
         | |- context [if ?c =? ?k then _ else _] => destruct (c =? k)
         end; reflexivity.
Qed.

Lemma Update_key_unrecognized (m : model) (key : string) (w : World) :
  decode (tea.KeyMsg key) = Unrecognized ->
  Update m (tea.KeyMsg key) w = (m, None, w).
Proof.
  unfold decode, Update. intros H.
  repeat match type of H with
         | (if ?c then _ else _) = _ => destruct c
         end; try discriminate; reflexivity.
Qed.

(** Every key message falls in one of the five cases. *)
Lemma decode_key_cases (key : string) :
  decode (tea.KeyMsg key) = QuitEvent \/
  decode (tea.KeyMsg key) = NavigateDown \/
  decode (tea.KeyMsg key) = NavigateUp \/
  decode (tea.KeyMsg key) = Activate \/
  decode (tea.KeyMsg key) = Unrecognized.
Proof.
  unfold decode.
  repeat match goal with
         | |- context [if ?c then _ else _] => destruct c
         end; tauto.
Qed.

(** Splits a goal about [Update m msg] into the seven cases above and
    rewrites with the matching equation, in every world. *)
Ltac update_cases m msg :=
  destruct msg as [width height | key | ];
  [ rewrite !(Update_WindowSizeMsg m width height)
  | destruct (decode_key_cases key) as [Hk | [Hk | [Hk | [Hk | Hk]]]];
    [ rewrite !(fun w => Update_key_quit m key w Hk)
    | rewrite !(fun w => Update_key_down m key w Hk)
    | rewrite !(fun w => Update_key_up m key w Hk)
    | rewrite !(fun w => Update_key_enter m key w Hk)
    | rewrite !(fun w => Update_key_unrecognized m key w Hk) ]
  | rewrite !(Update_OtherMsg m) ].

(** ** Structure of a session *)

Lemma updates_nil (m : model) (w : World) : updates m [] w = (m, w).
Proof. reflexivity. Qed.

Lemma updates_cons (m : model) (msg : tea.Msg) (rest : list tea.Msg) (w : World) :
  updates m (msg :: rest) w
  = updates (model_of (Update m msg w)) rest (world_of (Update m msg w)).
Proof.
  cbn [updates]. unfold bind, model_of, world_of.
  destruct (Update m msg w) as [[m' c] w']. reflexivity.
Qed.

Lemma steps_cons (m : model) (msg : tea.Msg) (rest : list tea.Msg) (w : World) :
  steps m (msg :: rest) w
  = let r := Update m msg w in
    let later := steps (model_of r) rest (world_of r) in
    ((model_of r, cmd_of r, View (model_of r)) :: fst later, snd later).
Proof.
  cbn [steps]. unfold bind, ret, model_of, cmd_of, world_of.
  destruct (Update m msg w) as [[m' c] w']. cbn.
  destruct (steps m' rest w') as [later w'']. reflexivity.
Qed.

(** An invariant of [Update] that holds at the start holds throughout. *)
Lemma updates_invariant (P : model -> Prop) :
  (forall m msg w, P m -> P (model_of (Update m msg w))) ->
  forall msgs m w, P m -> P (fst (updates m msgs w)).
Proof.
  intros Hstep. induction msgs as [| msg rest IH]; intros m w Hm.
  - exact Hm.
  - rewrite updates_cons. apply IH, Hstep, Hm.
Qed.

Lemma Update_Choice_in_menu (m : model) (msg : tea.Msg) (w : World) :
  0 <= Choice m <= 3 -> 0 <= Choice (model_of (Update m msg w)) <= 3.
Proof.
  intros Hc.
  assert (Hr : GoInt.in_range (Choice m))
    by (unfold GoInt.in_range, GoInt.min_int, GoInt.max_int;
        rewrite half_modulus_value; lia).
  update_cases m msg; cbn; try exact Hc.
  - rewrite incr_below_max
      by (trivial; unfold GoInt.max_int; rewrite half_modulus_value; lia).
    destruct (Z.ltb_spec 3 (Choice m + 1)); lia.
  - rewrite decr_above_min
      by (trivial; unfold GoInt.min_int; rewrite half_modulus_value; lia).
    destruct (Z.ltb_spec (Choice m - 1) 0); lia.
Qed.

(** C1. Whatever finite sequence of messages (resizes, navigation keys,
    [enter], quit keys, anything else) the session's model goes through,
    starting from the model [teaHandler] builds, whose [Choice] is 0, the
    [Choice] of the resulting model lies between 0 and 3. *)
Theorem Choice_stays_in_menu (s : ssh.Session) (msgs : list tea.Msg) (w : World) :
  Choice (fst (teaHandler s)) = 0 /\
  0 <= Choice (fst (updates (fst (teaHandler s)) msgs w)) <= 3.
Proof.
  split; [reflexivity |].
  apply (updates_invariant (fun m => 0 <= Choice m <= 3)).
  - intros m msg w'. apply Update_Choice_in_menu.
  - cbn. lia.
Qed.

(** ** Navigation *)

(** Outside any session: on a hand-built model whose [Choice] is the
    largest [int], [m.Choice++] wraps around to the smallest one, which is
    not above 3 and is therefore stored.  No session holds such a model,
    its [Choice] stays in the menu. *)
Lemma navigate_down_at_max_int :
  well_formed (model_at GoInt.max_int) /\
  Choice (model_of (Update (model_at GoInt.max_int) (tea.KeyMsg "down")
                           (fresh_world (fun _ => true))))
    = GoInt.min_int /\
  Choice (model_of (Update (model_at GoInt.max_int) (tea.KeyMsg "down")
                           (fresh_world (fun _ => true))))
    <> Z.min (Choice (model_at GoInt.max_int) + 1) 3.
Proof.
  split; [| split].
  - unfold well_formed, GoInt.in_range. cbn. repeat split; discriminate.
  - reflexivity.
  - vm_compute. discriminate.
Qed.

(** The mirror image: at the smallest [int], [m.Choice--] wraps around to
    the largest one. *)
Lemma navigate_up_at_min_int :
  Choice (model_of (Update (model_at GoInt.min_int) (tea.KeyMsg "up")
                           (fresh_world (fun _ => true))))
    = GoInt.max_int /\
  Z.max (Choice (model_at GoInt.min_int) - 1) 0 = 0.
Proof. split; reflexivity. Qed.

(** C2. For every model of a session (one whose [Choice] is in the menu,
    0 to 3, as the data model has it, or one reached from the model
    [teaHandler] builds by any sequence of messages), a navigate-down key
    ([j], [down]) sets [Choice] to [min (Choice + 1) 3] and a navigate-up
    key ([k], [up]) sets it to [max (Choice - 1) 0]; in particular
    navigate-down at 3 and navigate-up at 0 leave the model as it is.
    Neither key touches any other field, returns a command or opens
    anything. *)
Theorem navigation_clamps (m : model) (key : string) (w : World) :
  (0 <= Choice m <= 3 \/
   exists (s : ssh.Session) (msgs : list tea.Msg) (w0 : World),
     m = fst (updates (fst (teaHandler s)) msgs w0)) ->
  (decode (tea.KeyMsg key) = NavigateDown ->
     Update m (tea.KeyMsg key) w
     = (set_Choice m (Z.min (Choice m + 1) 3), None, w) /\
     (Choice m = 3 -> Update m (tea.KeyMsg key) w = (m, None, w))) /\
  (decode (tea.KeyMsg key) = NavigateUp ->
     Update m (tea.KeyMsg key) w
     = (set_Choice m (Z.max (Choice m - 1) 0), None, w) /\
     (Choice m = 0 -> Update m (tea.KeyMsg key) w = (m, None, w))) /\
  (decode (tea.KeyMsg "j") = NavigateDown /\
   decode (tea.KeyMsg "down") = NavigateDown /\
   decode (tea.KeyMsg "k") = NavigateUp /\
   decode (tea.KeyMsg "up") = NavigateUp).
Proof.
  intros Hm.
  assert (Hc : 0 <= Choice m <= 3).
  { destruct Hm as [Hc | [s [msgs [w0 ->]]]]; [exact Hc |].
    apply (updates_invariant (fun m0 => 0 <= Choice m0 <= 3)).
    - intros m0 msg w1. apply Update_Choice_in_menu.
    - cbn. lia. }
  assert (Hr : GoInt.in_range (Choice m) /\
               GoInt.min_int < Choice m < GoInt.max_int).
  { unfold GoInt.in_range, GoInt.min_int, GoInt.max_int.
    rewrite half_modulus_value. lia. }
  destruct Hr as [Hr [Hgt Hlt]].
  split; [| split].
  - intros Hk. rewrite (Update_key_down m key w Hk).
    rewrite incr_below_max by assumption. split.
    + destruct (Z.ltb_spec 3 (Choice m + 1)).
      * rewrite Z.min_r by lia. reflexivity.
      * rewrite Z.min_l by lia. reflexivity.
    + intros H3. destruct m as [wd ht c ch s1 s2 s3 s4 s5 d]. cbn in *. subst c.
      reflexivity.
  - intros Hk. rewrite (Update_key_up m key w Hk).
    rewrite decr_above_min by assumption. split.
    + destruct (Z.ltb_spec (Choice m - 1) 0).
      * rewrite Z.max_r by lia. reflexivity.
      * rewrite Z.max_l by lia. reflexivity.
    + intros H0. destruct m as [wd ht c ch s1 s2 s3 s4 s5 d]. cbn in *. subst c.
      reflexivity.
  - repeat split.
Qed.

Lemma navigation_clamps_witness :
  0 <= Choice (model_at 2) <= 3 /\
  Update (model_at 2) (tea.KeyMsg "j") (fresh_world (fun _ => true))
  = (model_at 3, None, fresh_world (fun _ => true)) /\
  Update (model_at 3) (tea.KeyMsg "down") (fresh_world (fun _ => true))
  = (model_at 3, None, fresh_world (fun _ => true)) /\
  Update (model_at 1) (tea.KeyMsg "up") (fresh_world (fun _ => true))
  = (model_at 0, None, fresh_world (fun _ => true)) /\
  Update (model_at 0) (tea.KeyMsg "k") (fresh_world (fun _ => true))
  = (model_at 0, None, fresh_world (fun _ => true)) /\
  Update (fst (updates (fst (teaHandler session80x24))
                       [tea.KeyMsg "j"; tea.WindowSizeMsg 40 10; tea.KeyMsg "j"]
                       (fresh_world (fun _ => true))))
         (tea.KeyMsg "down") (fresh_world (fun _ => true))
  = (set_Width (set_Height (model_at 3) 10) 40, None, fresh_world (fun _ => true)).
Proof.
  assert (R : forall c, 0 <= c <= 3 -> 0 <= Choice (model_at c) <= 3)
    by (intros c Hc; exact Hc).
  split; [apply R; lia |].
  split; [| split; [| split; [| split]]].
  - destruct (navigation_clamps (model_at 2) "j" (fresh_world (fun _ => true)))
      as [Hdown _]; [left; apply R; lia |].
    destruct (Hdown eq_refl) as [Hstep _]. exact Hstep.
  - destruct (navigation_clamps (model_at 3) "down" (fresh_world (fun _ => true)))
      as [Hdown _]; [left; apply R; lia |].
    destruct (Hdown eq_refl) as [_ Hstay]. apply Hstay. reflexivity.
  - destruct (navigation_clamps (model_at 1) "up" (fresh_world (fun _ => true)))
      as [_ [Hup _]]; [left; apply R; lia |].
    destruct (Hup eq_refl) as [Hstep _]. exact Hstep.
  - destruct (navigation_clamps (model_at 0) "k" (fresh_world (fun _ => true)))
      as [_ [Hup _]]; [left; apply R; lia |].
    destruct (Hup eq_refl) as [_ Hstay]. apply Hstay. reflexivity.
  - destruct (navigation_clamps
                (fst (updates (fst (teaHandler session80x24))
                              [tea.KeyMsg "j"; tea.WindowSizeMsg 40 10; tea.KeyMsg "j"]
                              (fresh_world (fun _ => true))))
                "down" (fresh_world (fun _ => true)))
      as [Hdown _].
    + right. exists session80x24,
        [tea.KeyMsg "j"; tea.WindowSizeMsg 40 10; tea.KeyMsg "j"],
        (fresh_world (fun _ => true)). reflexivity.
    + destruct (Hdown eq_refl) as [Hstep _]. exact Hstep.
Defined.

(** ** Activation *)

(** Outside the menu [enter] opens nothing. *)
Lemma enter_outside_menu (m : model) (w : World) :
  Choice m < 0 \/ 3 < Choice m ->
  Update m (tea.KeyMsg "enter") w = (m, None, w).
Proof.
  intros Hc. rewrite Update_key_enter by reflexivity. unfold entered_url.
  destruct (Z.eqb_spec (Choice m) 0); [lia |].
  destruct (Z.eqb_spec (Choice m) 1); [lia |].
  destruct (Z.eqb_spec (Choice m) 2); [lia |].
  destruct (Z.eqb_spec (Choice m) 3); [lia |].
  reflexivity.
Qed.

(** C3. With [Choice] between 0 and 3, [enter] hands the URL of the menu
    entry at that index to the browser launcher, once, and returns the
    model as it was, with no command; at index 2 the URL is the LinkedIn
    one. *)
Theorem enter_opens_selected_entry (m : model) (w : World) :
  0 <= Choice m <= 3 ->
  exists label url,
    nth_error menuEntries (Z.to_nat (Choice m)) = Some (label, url) /\
    Update m (tea.KeyMsg "enter") w = (m, None, launched w url) /\
    (Choice m = 2 -> url = LINKEDIN_URL /\ label = "Linkedin").
Proof.
  intros Hc. rewrite Update_key_enter by reflexivity.
  assert (Hi : Choice m = 0 \/ Choice m = 1 \/ Choice m = 2 \/ Choice m = 3) by lia.
  destruct Hi as [Hi | [Hi | [Hi | Hi]]]; rewrite Hi;
    eexists; eexists; (split; [reflexivity | split; [reflexivity |]]);
    intros Heq; try discriminate Heq; split; reflexivity.
Qed.

Lemma enter_opens_selected_entry_witness :
  0 <= Choice (model_at 2) <= 3 /\
  Update (model_at 2) (tea.KeyMsg "enter") (fresh_world (fun _ => false))
  = (model_at 2, None,
     {| openOutcome := fun _ => false; opened := [LINKEDIN_URL] |}).
Proof.
  assert (Hc : 0 <= Choice (model_at 2) <= 3) by (cbn; lia).
  split; [exact Hc |].
  destruct (enter_opens_selected_entry (model_at 2) (fresh_world (fun _ => false)) Hc)
    as [label [url [_ [Hupdate Hurl]]]].
  destruct (Hurl eq_refl) as [-> _]. exact Hupdate.
Defined.

(** ** Quitting *)

(** C4. On [q] and on [ctrl+c], whatever the model (so in particular for
    every model a session can reach), [Update] returns the quit command
    and the model as it was; nothing is opened. *)
Theorem quit_keys_terminate (m : model) (w : World) :
  Update m (tea.KeyMsg "q") w = (m, Some tea.Quit, w) /\
  Update m (tea.KeyMsg "ctrl+c") w = (m, Some tea.Quit, w).
Proof. split; reflexivity. Qed.

(** ** Resizing *)

(** C5. A window-size message stores exactly the reported width and
    height, keeps every other field of the model, returns no command and
    opens nothing. *)
Theorem resize_sets_geometry_only (m : model) (width height : Z) (w : World) :
  Update m (tea.WindowSizeMsg width height) w
  = ({| Width := width; Height := height;
        Choice := Choice m; Chosen := Chosen m;
        mainStyle := mainStyle m; aboutStyle := aboutStyle m;
        aboutNameStyle := aboutNameStyle m; checkboxStyle := checkboxStyle m;
        subtleStyle := subtleStyle m; dotStyle := dotStyle m |},
     None, w).
Proof. reflexivity. Qed.

(** ** Totality *)

(** C6. [Update] yields a model and a (possibly nil) command for every
    model, message and world, and a message that is neither a resize nor
    one of the navigation, activation and quit keys comes back with the
    model as it was, no command and nothing opened. *)
Theorem Update_total_ignores_unrecognized (m : model) (msg : tea.Msg) (w : World) :
  (exists m' cmd w', Update m msg w = (m', cmd, w')) /\
  (decode msg = Unrecognized -> Update m msg w = (m, None, w)).
Proof.
  split.
  - destruct (Update m msg w) as [[m' cmd] w'] eqn:E. exists m', cmd, w'. reflexivity.
  - destruct msg as [width height | key |]; intros Hd.
    + discriminate Hd.
    + apply Update_key_unrecognized, Hd.
    + reflexivity.
Qed.

Lemma Update_total_ignores_unrecognized_witness :
  decode (tea.KeyMsg "x") = Unrecognized /\
  Update (model_at 1) (tea.KeyMsg "x") (fresh_world (fun _ => true))
  = (model_at 1, None, fresh_world (fun _ => true)).
Proof.
  split; [reflexivity |].
  apply (Update_total_ignores_unrecognized (model_at 1) (tea.KeyMsg "x")).
  reflexivity.
Defined.

(** ** The view *)

Lemma append_empty_r (s : string) : s ++ EmptyString = s.
Proof. induction s as [| c s IH]; cbn; [| rewrite IH]; reflexivity. Qed.

Lemma Sprintf_lines (a b c d : string) :
  fmt.Sprintf ("%s" ++ nl ++ "%s" ++ nl ++ "%s" ++ nl ++ "%s") [a; b; c; d]
  = String.concat nl [a; b; c; d].
Proof. cbn. rewrite (append_empty_r d). reflexivity. Qed.

Lemma Sprintf_blocks (a b c : string) :
  fmt.Sprintf ("%s" ++ nl ++ nl ++ "%s" ++ nl ++ nl ++ "%s") [a; b; c]
  = a ++ nl ++ nl ++ b ++ nl ++ nl ++ c.
Proof. cbn. rewrite (append_empty_r c). reflexivity. Qed.

Lemma checkbox_entry_line (m : model) (i : nat) (label : string) :
  checkbox (checkboxStyle m) label (Choice m =? Z.of_nat i) = entry_line m i label.
Proof.
  unfold checkbox, entry_line. destruct (Choice m =? Z.of_nat i); [reflexivity |].
  cbn. rewrite append_empty_r. reflexivity.
Qed.

Lemma View_choices_checklist (m : model) :
  View_choices m = String.concat nl (checklist m).
Proof.
  unfold View_choices. rewrite Sprintf_lines.
  rewrite (checkbox_entry_line m 0), (checkbox_entry_line m 1),
    (checkbox_entry_line m 2), (checkbox_entry_line m 3).
  reflexivity.
Qed.

(** C7. For a model with [Choice] between 0 and 3, the frame is the main
    style applied to the about block, the checklist and the legend, and
    the checklist is one line per menu entry, in the order Resume / CV,
    GitHub, Linkedin, Twitter, joined by newlines; line [i] is
    [[x] label] in the checkbox style when [i] is [Choice] and the plain
    text [[ ] label] otherwise, and exactly one of the four lines is the
    marked one.  With [Choice] 0, as in the model [teaHandler] builds, that
    line is Resume / CV. *)
Theorem View_marks_selected_entry (m : model) :
  0 <= Choice m <= 3 ->
  View m = lipgloss.Render (mainStyle m)
             (nl ++ (View_about m ++ nl ++ nl ++
                     String.concat nl (checklist m) ++ nl ++ nl ++
                     View_tpl m) ++ nl ++ nl) /\
  map fst menuEntries = ["Resume / CV"; "GitHub"; "Linkedin"; "Twitter"] /\
  (forall i label,
     nth_error (map fst menuEntries) i = Some label ->
     nth_error (checklist m) i
     = Some (if Choice m =? Z.of_nat i
             then lipgloss.Render (checkboxStyle m) ("[x] " ++ label)
             else "[ ] " ++ label)) /\
  length (filter (fun i => Choice m =? Z.of_nat i) (seq 0 (length menuEntries)))
  = 1%nat /\
  (Choice m = 0 ->
   checklist m = [ lipgloss.Render (checkboxStyle m) "[x] Resume / CV";
                   "[ ] GitHub"; "[ ] Linkedin"; "[ ] Twitter" ]).
Proof.
  intros Hc. split; [| split; [| split; [| split]]].
  - unfold View. rewrite Sprintf_blocks, View_choices_checklist. reflexivity.
  - reflexivity.
  - intros i label Hi.
    destruct i as [| [| [| [| i]]]]; cbn in Hi;
      try (injection Hi as <-; reflexivity).
    destruct i; discriminate Hi.
  - assert (Hi : Choice m = 0 \/ Choice m = 1 \/ Choice m = 2 \/ Choice m = 3) by lia.
    destruct Hi as [Hi | [Hi | [Hi | Hi]]]; rewrite Hi; reflexivity.
  - intros H0. unfold checklist, entry_line. rewrite H0. reflexivity.
Qed.

Lemma View_marks_selected_entry_witness :
  0 <= Choice (fst (teaHandler session80x24)) <= 3 /\
  checklist (fst (teaHandler session80x24))
  = [ "[x] Resume / CV"; "[ ] GitHub"; "[ ] Linkedin"; "[ ] Twitter" ].
Proof.
  assert (Hc : 0 <= Choice (fst (teaHandler session80x24)) <= 3) by (cbn; lia).
  split; [exact Hc |].
  destruct (View_marks_selected_entry (fst (teaHandler session80x24)) Hc)
    as [_ [_ [_ [_ Hinitial]]]].
  rewrite (Hinitial eq_refl). reflexivity.
Defined.

(** ** The launcher's outcome *)

(** The launcher does report failure to its caller. *)
Lemma OpenURL_reports_outcome (url : string) :
  fst (browser.OpenURL url (fresh_world (fun _ => true))) = None /\
  fst (browser.OpenURL url (fresh_world (fun _ => false))) <> None.
Proof. split; [reflexivity | discriminate]. Qed.

(** One call of [Update] in two worlds that agree on what was opened:
    same model, same command, and the worlds still agree. *)
Lemma Update_ignores_outcome (m : model) (msg : tea.Msg) (w1 w2 : World) :
  opened w1 = opened w2 ->
  model_of (Update m msg w1) = model_of (Update m msg w2) /\
  cmd_of (Update m msg w1) = cmd_of (Update m msg w2) /\
  opened (world_of (Update m msg w1)) = opened (world_of (Update m msg w2)).
Proof.
  intros Hw. update_cases m msg; cbn; auto.
  destruct (entered_url (Choice m)); cbn; auto.
  rewrite Hw. auto.
Qed.

Lemma session_ignores_outcome (msgs : list tea.Msg) :
  forall (m : model) (w1 w2 : World),
    opened w1 = opened w2 ->
    fst (updates m msgs w1) = fst (updates m msgs w2) /\
    fst (steps m msgs w1) = fst (steps m msgs w2) /\
    opened (snd (updates m msgs w1)) = opened (snd (updates m msgs w2)).
Proof.
  induction msgs as [| msg rest IH]; intros m w1 w2 Hw.
  - cbn. auto.
  - rewrite !updates_cons, !steps_cons. cbn zeta.
    destruct (Update_ignores_outcome m msg w1 w2 Hw) as [Hm [Hc Ho]].
    rewrite Hm, Hc. cbn [fst snd].
    destruct (IH (model_of (Update m msg w2)) _ _ Ho) as [H1 [H2 H3]].
    rewrite H1, H2, H3. auto.
Qed.

(** C8. Two runs of a session over the same messages, from the same model,
    that differ only in which launches of the browser succeed ([o1]
    against [o2]) go through the same models, return the same commands,
    draw the same frames and hand the same URLs to the launcher. *)
Theorem launch_outcome_never_observed
    (m : model) (msgs : list tea.Msg) (log : list string) (o1 o2 : nat -> bool) :
  fst (updates m msgs {| openOutcome := o1; opened := log |})
  = fst (updates m msgs {| openOutcome := o2; opened := log |}) /\
  fst (steps m msgs {| openOutcome := o1; opened := log |})
  = fst (steps m msgs {| openOutcome := o2; opened := log |}) /\
  opened (snd (updates m msgs {| openOutcome := o1; opened := log |}))
  = opened (snd (updates m msgs {| openOutcome := o2; opened := log |})).
Proof. apply session_ignores_outcome. reflexivity. Qed.

(** ** Geometry *)

(** [Update] stores what a window-size message reports, whatever it is:
    after a message that reports -1 by -1 the model's width and height are
    negative. *)
Lemma negative_resize_is_stored :
  Width (fst (updates (fst (teaHandler session80x24))
                      [tea.WindowSizeMsg (-1) (-1)]
                      (fresh_world (fun _ => true)))) = -1 /\
  Height (fst (updates (fst (teaHandler session80x24))
                       [tea.WindowSizeMsg (-1) (-1)]
                       (fresh_world (fun _ => true)))) = -1 /\
  ~ 0 <= Width (fst (updates (fst (teaHandler session80x24))
                             [tea.WindowSizeMsg (-1) (-1)]
                             (fresh_world (fun _ => true)))).
Proof. cbn. repeat split. intros H. apply H. reflexivity. Qed.

Lemma Update_natural_size (m : model) (msg : tea.Msg) (w : World) :
  reports_natural_size msg ->
  0 <= Width m /\ 0 <= Height m ->
  0 <= Width (model_of (Update m msg w)) /\ 0 <= Height (model_of (Update m msg w)).
Proof.
  intros Hmsg Hm. update_cases m msg; cbn; try exact Hm.
  exact Hmsg.
Qed.

(** C9 (amended). The model takes its width and height from the pty window
    of the session and from the window-size messages, as they come: when
    the window the session starts with and every window-size message of the
    sequence report non-negative dimensions, the width and height of the
    resulting model are non-negative. *)
Theorem geometry_nonnegative_when_reported_so
    (s : ssh.Session) (msgs : list tea.Msg) (w : World) :
  0 <= ssh.Width (ssh.PtyWindow s) ->
  0 <= ssh.Height (ssh.PtyWindow s) ->
  Forall reports_natural_size msgs ->
  0 <= Width (fst (updates (fst (teaHandler s)) msgs w)) /\
  0 <= Height (fst (updates (fst (teaHandler s)) msgs w)).
Proof.
  intros Hw0 Hh0 Hmsgs.
  assert (Hstart : 0 <= Width (fst (teaHandler s)) /\ 0 <= Height (fst (teaHandler s)))
    by (cbn; auto).
  revert Hstart. generalize (fst (teaHandler s)) as m. revert w.
  induction Hmsgs as [| msg rest Hmsg Hrest IH]; intros w m Hm.
  - exact Hm.
  - rewrite updates_cons. apply IH, Update_natural_size; assumption.
Qed.

Lemma geometry_nonnegative_when_reported_so_witness :
  0 <= Width (fst (updates (fst (teaHandler session80x24))
                           [tea.WindowSizeMsg 40 24; tea.KeyMsg "j"; tea.WindowSizeMsg 0 0]
                           (fresh_world (fun _ => true)))) /\
  0 <= Height (fst (updates (fst (teaHandler session80x24))
                            [tea.WindowSizeMsg 40 24; tea.KeyMsg "j"; tea.WindowSizeMsg 0 0]
                            (fresh_world (fun _ => true)))).
Proof.
  apply (geometry_nonnegative_when_reported_so session80x24).
  - cbn. lia.
  - cbn. lia.
  - repeat constructor; cbn; lia.
Defined.

(** ** What a session never changes *)

Lemma same_bindings_refl (m : model) : same_bindings m m.
Proof. repeat split. Qed.

Lemma same_bindings_trans (m1 m2 m3 : model) :
  same_bindings m1 m2 -> same_bindings m2 m3 -> same_bindings m1 m3.
Proof.
  unfold same_bindings.
  intros [A1 [A2 [A3 [A4 [A5 [A6 A7]]]]]] [B1 [B2 [B3 [B4 [B5 [B6 B7]]]]]].
  repeat split; congruence.
Qed.

Lemma Update_same_bindings (m : model) (msg : tea.Msg) (w : World) :
  same_bindings m (model_of (Update m msg w)).
Proof. update_cases m msg; repeat split. Qed.

Lemma updates_same_bindings (msgs : list tea.Msg) :
  forall (m : model) (w : World), same_bindings m (fst (updates m msgs w)).
Proof.
  induction msgs as [| msg rest IH]; intros m w.
  - apply same_bindings_refl.
  - rewrite updates_cons.
    apply (same_bindings_trans m (model_of (Update m msg w))).
    + apply Update_same_bindings.
    + apply IH.
Qed.

(** C10. [Update] returns a model with the [Chosen] flag and the six style
    fields of the model it was given: only [Width], [Height] and [Choice]
    can differ.  So after any sequence of messages the style fields are
    still those [teaHandler] bound, and [Chosen], which [teaHandler] sets
    to false, is still false. *)
Theorem Update_keeps_bindings
    (m : model) (msg : tea.Msg) (s : ssh.Session) (msgs : list tea.Msg) (w : World) :
  same_bindings m (model_of (Update m msg w)) /\
  model_of (Update m msg w)
  = set_Choice (set_Height (set_Width m (Width (model_of (Update m msg w))))
                           (Height (model_of (Update m msg w))))
               (Choice (model_of (Update m msg w))) /\
  same_bindings (fst (teaHandler s)) (fst (updates (fst (teaHandler s)) msgs w)) /\
  Chosen (fst (teaHandler s)) = false /\
  Chosen (fst (updates (fst (teaHandler s)) msgs w)) = false.
Proof.
  split; [apply Update_same_bindings |].
  split.
  - destruct m as [wd ht c ch s1 s2 s3 s4 s5 d].
    update_cases ({| Width := wd; Height := ht; Choice := c; Chosen := ch;
                     mainStyle := s1; aboutStyle := s2; aboutNameStyle := s3;
                     checkboxStyle := s4; subtleStyle := s5; dotStyle := d |}) msg;
      reflexivity.
  - split; [apply updates_same_bindings |].
    split; [reflexivity |].
    destruct (updates_same_bindings msgs (fst (teaHandler s)) w) as [Hch _].
    rewrite Hch. reflexivity.
Qed.

(** ** Scenarios *)

Example TrimSpace_drops_outer_newlines :
  strings.TrimSpace aboutLiteral
  = substring 1 (String.length aboutLiteral - 2) aboutLiteral.
Proof. reflexivity. Qed.

Example Sprintf_diagnostics :
  fmt.Sprintf "[ ] %s" [] = "[ ] %!s(MISSING)" /\
  fmt.Sprintf "100%%" ["a"; "b"] = "100%%!(EXTRA string=a, string=b)".
Proof. split; reflexivity. Qed.

Example three_downs_then_a_fourth :
  Choice (fst (updates (fst (teaHandler session80x24))
                       [tea.KeyMsg "down"; tea.KeyMsg "j"; tea.KeyMsg "down"]
                       (fresh_world (fun _ => true)))) = 3 /\
  Choice (fst (updates (fst (teaHandler session80x24))
                       [tea.KeyMsg "down"; tea.KeyMsg "j"; tea.KeyMsg "down";
                        tea.KeyMsg "j"]
                       (fresh_world (fun _ => true)))) = 3.
Proof. split; reflexivity. Qed.

Example browse_twice_then_resize :
  let r := updates (fst (teaHandler session80x24))
             [tea.KeyMsg "j"; tea.KeyMsg "down"; tea.KeyMsg "enter";
              tea.KeyMsg "j"; tea.KeyMsg "j"; tea.KeyMsg "enter";
              tea.KeyMsg "k"; tea.WindowSizeMsg 40 10; tea.KeyMsg "x"]
             (fresh_world (fun _ => false)) in
  (Width (fst r), Height (fst r), Choice (fst r)) = (40, 10, 2) /\
  opened (snd r) = [LINKEDIN_URL; TWITTER_URL].
Proof. split; reflexivity. Qed.

Example checklist_after_two_downs :
  View_choices (fst (updates (fst (teaHandler session80x24))
                             [tea.KeyMsg "j"; tea.KeyMsg "j"]
                             (fresh_world (fun _ => true))))
  = "[ ] Resume / CV" ++ nl ++ "[ ] GitHub" ++ nl ++
    "[x] Linkedin" ++ nl ++ "[ ] Twitter".
Proof. reflexivity. Qed.

(** * Further properties of the program *)

(** ** Which message does what *)

Lemma decode_quit_inv (key : string) :
  decode (tea.KeyMsg key) = QuitEvent -> key = "q" \/ key = "ctrl+c".
Proof.
  unfold decode, is_one_of.
  destruct (String.eqb_spec key "q") as [-> | _]; [left; reflexivity |].
  destruct (String.eqb_spec key "ctrl+c") as [-> | _]; [right; reflexivity |].
  cbn [orb].
  repeat match goal with
         | |- context [if ?c then _ else _] => destruct c
         end; discriminate.
Qed.

Lemma decode_enter_inv (key : string) :
  decode (tea.KeyMsg key) = Activate -> key = "enter".
Proof.
  unfold decode.
  destruct (is_one_of key "q" "ctrl+c"); [discriminate |].
  destruct (is_one_of key "j" "down"); [discriminate |].
  destruct (is_one_of key "k" "up"); [discriminate |].
  destruct (String.eqb_spec key "enter") as [-> | _]; [reflexivity | discriminate].
Qed.

Lemma entered_url_in_menu (c : Z) :
  0 <= c <= 3 -> exists url, entered_url c = Some url /\ In url menu_urls.
Proof.
  intros Hc.
  assert (Hi : c = 0 \/ c = 1 \/ c = 2 \/ c = 3) by lia.
  destruct Hi as [-> | [-> | [-> | ->]]]; eexists; (split; [reflexivity |]);
    cbn; auto.
Qed.

Lemma entered_url_outside_menu (c : Z) :
  ~ 0 <= c <= 3 -> entered_url c = None.
Proof.
  intros Hc. unfold entered_url.
  destruct (Z.eqb_spec c 0); [lia |].
  destruct (Z.eqb_spec c 1); [lia |].
  destruct (Z.eqb_spec c 2); [lia |].
  destruct (Z.eqb_spec c 3); [lia |].
  reflexivity.
Qed.

Lemma launched_differs (w : World) (url : string) : launched w url <> w.
Proof.
  intros H. apply (f_equal (fun x => length (opened x))) in H.
  cbn in H. rewrite length_app in H. cbn in H. lia.
Qed.

(** X1. [Update] returns the quit command for the keys [q] and [ctrl+c]
    and for no other message: every other message comes back with a nil
    command. *)
Theorem quit_command_only_for_quit_keys (m : model) (msg : tea.Msg) (w : World) :
  cmd_of (Update m msg w) = Some tea.Quit
  <-> msg = tea.KeyMsg "q" \/ msg = tea.KeyMsg "ctrl+c".
Proof.
  split.
  - update_cases m msg; intros Hq; try discriminate Hq.
    destruct (decode_quit_inv key Hk) as [-> | ->]; auto.
  - intros [-> | ->]; reflexivity.
Qed.

(** X2. [Update] hands a URL to the browser launcher exactly when the
    message is the [enter] key and [Choice] is between 0 and 3; then it is
    one URL, one of the four of the menu.  In every other case (another
    message, or [enter] with [Choice] outside the menu, where the switch
    has no case) the world is left as it was. *)
Theorem launcher_called_exactly_on_enter_in_menu
    (m : model) (msg : tea.Msg) (w : World) :
  (world_of (Update m msg w) <> w
   <-> msg = tea.KeyMsg "enter" /\ 0 <= Choice m <= 3) /\
  (world_of (Update m msg w) = w \/
   exists url, In url menu_urls /\ world_of (Update m msg w) = launched w url).
Proof.
  split; [split |].
  - update_cases m msg; intros Hne; cbn in Hne;
      try (exfalso; apply Hne; reflexivity).
    split; [f_equal; apply decode_enter_inv, Hk |].
    assert (Hc : 0 <= Choice m <= 3 \/ ~ 0 <= Choice m <= 3) by lia.
    destruct Hc as [Hc | Hc]; [exact Hc |].
    rewrite (entered_url_outside_menu _ Hc) in Hne.
    exfalso. apply Hne. reflexivity.
  - intros [-> Hc]. rewrite Update_key_enter by reflexivity.
    destruct (entered_url_in_menu _ Hc) as [url [-> _]]. cbn.
    apply launched_differs.
  - update_cases m msg; cbn; auto.
    assert (Hc : 0 <= Choice m <= 3 \/ ~ 0 <= Choice m <= 3) by lia.
    destruct Hc as [Hc | Hc].
    + destruct (entered_url_in_menu _ Hc) as [url [-> Hin]].
      right. exists url. auto.
    + rewrite (entered_url_outside_menu _ Hc). auto.
Qed.

(** X3. Whatever the model's [Choice], even outside the menu or at an end
    of the [int] range, after a navigate-down key it is at most 3 and after
    a navigate-up key it is at least 0. *)
Theorem navigation_bounds_every_model (m : model) (key : string) (w : World) :
  (decode (tea.KeyMsg key) = NavigateDown ->
   Choice (model_of (Update m (tea.KeyMsg key) w)) <= 3) /\
  (decode (tea.KeyMsg key) = NavigateUp ->
   0 <= Choice (model_of (Update m (tea.KeyMsg key) w))).
Proof.
  split; intros Hk.
  - rewrite (Update_key_down m key w Hk). cbn.
    destruct (Z.ltb_spec 3 (GoInt.incr (Choice m))); lia.
  - rewrite (Update_key_up m key w Hk). cbn.
    destruct (Z.ltb_spec (GoInt.decr (Choice m)) 0); lia.
Qed.

Lemma navigation_bounds_every_model_witness :
  Choice (model_of (Update (model_at GoInt.max_int) (tea.KeyMsg "j")
                           (fresh_world (fun _ => true)))) <= 3 /\
  0 <= Choice (model_of (Update (model_at (-7)) (tea.KeyMsg "up")
                                (fresh_world (fun _ => true)))).
Proof.
  split.
  - apply (navigation_bounds_every_model (model_at GoInt.max_int) "j").
    reflexivity.
  - apply (navigation_bounds_every_model (model_at (-7)) "up").
    reflexivity.
Defined.

(** ** Navigation over several keys *)

Lemma in_menu_in_range (c : Z) : 0 <= c <= 3 -> GoInt.in_range c.
Proof.
  unfold GoInt.in_range, GoInt.min_int, GoInt.max_int.
  rewrite half_modulus_value. lia.
Qed.

Lemma Choice_after_down (m : model) (msg : tea.Msg) (w : World) :
  0 <= Choice m <= 3 -> decode msg = NavigateDown ->
  Choice (model_of (Update m msg w)) = Z.min (Choice m + 1) 3.
Proof.
  intros Hc Hd. destruct msg as [width height | key |]; try discriminate Hd.
  rewrite (Update_key_down m key w Hd). cbn.
  rewrite incr_below_max
    by (auto using in_menu_in_range; unfold GoInt.max_int;
        rewrite half_modulus_value; lia).
  destruct (Z.ltb_spec 3 (Choice m + 1)); lia.
Qed.

Lemma Choice_after_up (m : model) (msg : tea.Msg) (w : World) :
  0 <= Choice m <= 3 -> decode msg = NavigateUp ->
  Choice (model_of (Update m msg w)) = Z.max (Choice m - 1) 0.
Proof.
  intros Hc Hd. destruct msg as [width height | key |]; try discriminate Hd.
  rewrite (Update_key_up m key w Hd). cbn.
  rewrite decr_above_min
    by (auto using in_menu_in_range; unfold GoInt.min_int;
        rewrite half_modulus_value; lia).
  destruct (Z.ltb_spec (Choice m - 1) 0); lia.
Qed.

(** X4. From a model whose [Choice] is in the menu, [n] navigate-down keys
    in a row lead to [min (Choice + n) 3] and [n] navigate-up keys to
    [max (Choice - n) 0]: the selection saturates at the last and at the
    first entry and never wraps to the other end. *)
Theorem repeated_navigation_saturates
    (msgs : list tea.Msg) (m : model) (w : World) :
  0 <= Choice m <= 3 ->
  (Forall (fun msg => decode msg = NavigateDown) msgs ->
   Choice (fst (updates m msgs w)) = Z.min (Choice m + Z.of_nat (length msgs)) 3) /\
  (Forall (fun msg => decode msg = NavigateUp) msgs ->
   Choice (fst (updates m msgs w)) = Z.max (Choice m - Z.of_nat (length msgs)) 0).
Proof.
  revert m w. induction msgs as [| msg rest IH]; intros m w Hc.
  - cbn. split; intros _; lia.
  - pose proof (Update_Choice_in_menu m msg w Hc) as Hc'.
    destruct (IH (model_of (Update m msg w)) (world_of (Update m msg w)) Hc')
      as [IHdown IHup].
    rewrite updates_cons. split; intros Hall; inversion Hall as [| ? ? Hmsg Hrest]; subst.
    + rewrite (IHdown Hrest), (Choice_after_down m msg w Hc Hmsg).
      cbn [length]. lia.
    + rewrite (IHup Hrest), (Choice_after_up m msg w Hc Hmsg).
      cbn [length]. lia.
Qed.

Lemma repeated_navigation_saturates_witness :
  Choice (fst (updates (model_at 1)
                       [tea.KeyMsg "j"; tea.KeyMsg "down"; tea.KeyMsg "j";
                        tea.KeyMsg "down"; tea.KeyMsg "j"]
                       (fresh_world (fun _ => true)))) = 3.
Proof.
  destruct (repeated_navigation_saturates
              [tea.KeyMsg "j"; tea.KeyMsg "down"; tea.KeyMsg "j";
               tea.KeyMsg "down"; tea.KeyMsg "j"]
              (model_at 1) (fresh_world (fun _ => true))) as [Hdown _].
  - cbn. lia.
  - rewrite Hdown.
    + reflexivity.
    + repeat constructor.
Defined.

Lemma Update_down_in_menu (m : model) (key : string) (w : World) :
  0 <= Choice m <= 3 -> decode (tea.KeyMsg key) = NavigateDown ->
  Update m (tea.KeyMsg key) w = (set_Choice m (Z.min (Choice m + 1) 3), None, w).
Proof.
  intros Hc Hd. rewrite (Update_key_down m key w Hd).
  rewrite incr_below_max
    by (auto using in_menu_in_range; unfold GoInt.max_int;
        rewrite half_modulus_value; lia).
  destruct (Z.ltb_spec 3 (Choice m + 1)).
  - rewrite Z.min_r by lia. reflexivity.
  - rewrite Z.min_l by lia. reflexivity.
Qed.

Lemma Update_up_in_menu (m : model) (key : string) (w : World) :
  0 <= Choice m <= 3 -> decode (tea.KeyMsg key) = NavigateUp ->
  Update m (tea.KeyMsg key) w = (set_Choice m (Z.max (Choice m - 1) 0), None, w).
Proof.
  intros Hc Hu. rewrite (Update_key_up m key w Hu).
  rewrite decr_above_min
    by (auto using in_menu_in_range; unfold GoInt.min_int;
        rewrite half_modulus_value; lia).
  destruct (Z.ltb_spec (Choice m - 1) 0).
  - rewrite Z.max_r by lia. reflexivity.
  - rewrite Z.max_l by lia. reflexivity.
Qed.

Lemma set_Choice_twice_back (m : model) (c c' : Z) :
  c' = Choice m -> set_Choice (set_Choice m c) c' = m.
Proof. intros ->. destruct m. reflexivity. Qed.

(** X5. Away from the ends of the menu navigation undoes itself: with
    [Choice] in 0..2, a navigate-down key followed by a navigate-up key
    gives back the very same model, and with [Choice] in 1..3 so does a
    navigate-up followed by a navigate-down.  At the ends it does not:
    down then up from 3 ends on 2, up then down from 0 ends on 1. *)
Theorem navigation_round_trip (m : model) (down up : string) (w : World) :
  decode (tea.KeyMsg down) = NavigateDown ->
  decode (tea.KeyMsg up) = NavigateUp ->
  (0 <= Choice m <= 2 ->
   updates m [tea.KeyMsg down; tea.KeyMsg up] w = (m, w)) /\
  (1 <= Choice m <= 3 ->
   updates m [tea.KeyMsg up; tea.KeyMsg down] w = (m, w)) /\
  (Choice m = 3 ->
   Choice (fst (updates m [tea.KeyMsg down; tea.KeyMsg up] w)) = 2) /\
  (Choice m = 0 ->
   Choice (fst (updates m [tea.KeyMsg up; tea.KeyMsg down] w)) = 1).
Proof.
  intros Hd Hu.
  assert (Hdu : forall c, 0 <= c <= 3 -> Choice m = c ->
            updates m [tea.KeyMsg down; tea.KeyMsg up] w
            = (set_Choice (set_Choice m (Z.min (c + 1) 3))
                          (Z.max (Z.min (c + 1) 3 - 1) 0), w)).
  { intros c Hc <-. rewrite updates_cons, (Update_down_in_menu m down w Hc Hd).
    cbn [model_of world_of fst snd].
    rewrite updates_cons, (Update_up_in_menu _ up w) by (trivial; cbn; lia).
    reflexivity. }
  assert (Hud : forall c, 0 <= c <= 3 -> Choice m = c ->
            updates m [tea.KeyMsg up; tea.KeyMsg down] w
            = (set_Choice (set_Choice m (Z.max (c - 1) 0))
                          (Z.min (Z.max (c - 1) 0 + 1) 3), w)).
  { intros c Hc <-. rewrite updates_cons, (Update_up_in_menu m up w Hc Hu).
    cbn [model_of world_of fst snd].
    rewrite updates_cons, (Update_down_in_menu _ down w) by (trivial; cbn; lia).
    reflexivity. }
  split; [| split; [| split]]; intros Hc.
  - rewrite (Hdu (Choice m)) by lia.
    rewrite set_Choice_twice_back by lia. reflexivity.
  - rewrite (Hud (Choice m)) by lia.
    rewrite set_Choice_twice_back by lia. reflexivity.
  - rewrite (Hdu 3) by (trivial; lia). reflexivity.
  - rewrite (Hud 0) by (trivial; lia). reflexivity.
Qed.

Lemma navigation_round_trip_witness :
  updates (model_at 1) [tea.KeyMsg "j"; tea.KeyMsg "k"] (fresh_world (fun _ => true))
  = (model_at 1, fresh_world (fun _ => true)) /\
  Choice (fst (updates (model_at 3) [tea.KeyMsg "j"; tea.KeyMsg "k"]
                       (fresh_world (fun _ => true)))) = 2.
Proof.
  split.
  - destruct (navigation_round_trip (model_at 1) "j" "k" (fresh_world (fun _ => true)))
      as [Hback _]; [reflexivity | reflexivity |].
    apply Hback. cbn. lia.
  - destruct (navigation_round_trip (model_at 3) "j" "k" (fresh_world (fun _ => true)))
      as [_ [_ [Hend _]]]; [reflexivity | reflexivity |].
    apply Hend. reflexivity.
Defined.

(** ** Whole sessions *)

Lemma updates_app (before after : list tea.Msg) :
  forall (m : model) (w : World),
    updates m (before ++ after) w
    = updates (fst (updates m before w)) after (snd (updates m before w)).
Proof.
  induction before as [| msg rest IH]; intros m w.
  - reflexivity.
  - cbn [app]. rewrite !updates_cons. apply IH.
Qed.

Lemma Update_keeps_geometry (m : model) (msg : tea.Msg) (w : World) :
  not_a_resize msg ->
  Width (model_of (Update m msg w)) = Width m /\
  Height (model_of (Update m msg w)) = Height m.
Proof.
  intros Hmsg. update_cases m msg; cbn; auto. contradiction.
Qed.

Lemma updates_keep_geometry (msgs : list tea.Msg) :
  forall (m : model) (w : World),
    Forall not_a_resize msgs ->
    Width (fst (updates m msgs w)) = Width m /\
    Height (fst (updates m msgs w)) = Height m.
Proof.
  induction msgs as [| msg rest IH]; intros m w Hall.
  - auto.
  - inversion Hall as [| ? ? Hmsg Hrest]; subst. rewrite updates_cons.
    destruct (IH (model_of (Update m msg w)) (world_of (Update m msg w)) Hrest)
      as [Hw Hh].
    destruct (Update_keeps_geometry m msg w Hmsg) as [Hw' Hh'].
    split; congruence.
Qed.

(** X6. The geometry a model holds is the last one reported: after a
    sequence of messages whose last window-size message is [width] by
    [height], the model's width and height are [width] and [height],
    whatever came before; a sequence without any window-size message
    leaves the width and height of the model it started from. *)
Theorem geometry_is_last_reported
    (before after : list tea.Msg) (width height : Z) (m : model) (w : World) :
  Forall not_a_resize after ->
  (Width (fst (updates m (before ++ tea.WindowSizeMsg width height :: after) w)) = width /\
   Height (fst (updates m (before ++ tea.WindowSizeMsg width height :: after) w)) = height) /\
  (Width (fst (updates m after w)) = Width m /\
   Height (fst (updates m after w)) = Height m).
Proof.
  intros Hafter. split; [| apply updates_keep_geometry, Hafter].
  rewrite updates_app, updates_cons, Update_WindowSizeMsg.
  cbn [model_of world_of fst snd].
  destruct (updates_keep_geometry after
              (set_Height (set_Width (fst (updates m before w)) width) height)
              (snd (updates m before w)) Hafter) as [Hw Hh].
  rewrite Hw, Hh. split; reflexivity.
Qed.

Lemma geometry_is_last_reported_witness :
  Width (fst (updates (model_at 0)
                ([tea.WindowSizeMsg 100 50; tea.KeyMsg "j"]
                 ++ tea.WindowSizeMsg 40 10 :: [tea.KeyMsg "enter"; tea.OtherMsg])
                (fresh_world (fun _ => true)))) = 40 /\
  Height (fst (updates (model_at 0)
                ([tea.WindowSizeMsg 100 50; tea.KeyMsg "j"]
                 ++ tea.WindowSizeMsg 40 10 :: [tea.KeyMsg "enter"; tea.OtherMsg])
                (fresh_world (fun _ => true)))) = 10.
Proof.
  apply (geometry_is_last_reported
           [tea.WindowSizeMsg 100 50; tea.KeyMsg "j"]
           [tea.KeyMsg "enter"; tea.OtherMsg] 40 10).
  repeat constructor.
Defined.

(** The selection after one message is a function of the selection before
    and of the message: of nothing else in the model, and not of the
    world. *)
Lemma Update_Choice_congruence (m1 m2 : model) (msg : tea.Msg) (w1 w2 : World) :
  Choice m1 = Choice m2 ->
  Choice (model_of (Update m1 msg w1)) = Choice (model_of (Update m2 msg w2)).
Proof.
  intros Hc. destruct msg as [width height | key |].
  - rewrite !Update_WindowSizeMsg. exact Hc.
  - destruct (decode_key_cases key) as [Hk | [Hk | [Hk | [Hk | Hk]]]].
    + rewrite !(fun m w => Update_key_quit m key w Hk). exact Hc.
    + rewrite !(fun m w => Update_key_down m key w Hk). cbn. rewrite Hc. reflexivity.
    + rewrite !(fun m w => Update_key_up m key w Hk). cbn. rewrite Hc. reflexivity.
    + rewrite !(fun m w => Update_key_enter m key w Hk). exact Hc.
    + rewrite !(fun m w => Update_key_unrecognized m key w Hk). exact Hc.
  - rewrite !Update_OtherMsg. exact Hc.
Qed.

Lemma updates_Choice_congruence (msgs : list tea.Msg) :
  forall (m1 m2 : model) (w1 w2 : World),
    Choice m1 = Choice m2 ->
    Choice (fst (updates m1 msgs w1)) = Choice (fst (updates m2 msgs w2)).
Proof.
  induction msgs as [| msg rest IH]; intros m1 m2 w1 w2 Hc.
  - exact Hc.
  - rewrite !updates_cons. apply IH, Update_Choice_congruence, Hc.
Qed.

Lemma Update_keeps_Choice (m : model) (msg : tea.Msg) (w : World) :
  is_navigation msg = false -> Choice (model_of (Update m msg w)) = Choice m.
Proof.
  unfold is_navigation. intros Hn.
  update_cases m msg; try reflexivity; rewrite Hk in Hn; discriminate Hn.
Qed.

Lemma updates_Choice_navigation (msgs : list tea.Msg) :
  forall (m : model) (w w' : World),
    Choice (fst (updates m msgs w))
    = Choice (fst (updates m (filter is_navigation msgs) w')).
Proof.
  induction msgs as [| msg rest IH]; intros m w w'.
  - reflexivity.
  - cbn [filter]. rewrite updates_cons.
    destruct (is_navigation msg) eqn:Hn.
    + rewrite updates_cons.
      rewrite (IH _ (world_of (Update m msg w)) (world_of (Update m msg w'))).
      apply updates_Choice_congruence, Update_Choice_congruence. reflexivity.
    + rewrite (IH _ (world_of (Update m msg w)) w').
      apply updates_Choice_congruence, Update_keeps_Choice, Hn.
Qed.

(** X7. Only the navigation keys count for the selection: the [Choice] a
    model ends with after a sequence of messages is the one it ends with
    after the navigation keys of the sequence alone, with every resize,
    [enter], quit key and unknown message taken out; and it does not depend
    on what the launcher did. *)
Theorem Choice_follows_navigation_keys_only
    (msgs : list tea.Msg) (m : model) (w w' : World) :
  Choice (fst (updates m msgs w))
  = Choice (fst (updates m (filter is_navigation msgs) w')).
Proof. apply updates_Choice_navigation. Qed.

(** ** What the frame depends on *)

Lemma same_bindings_sym (m m' : model) : same_bindings m m' -> same_bindings m' m.
Proof.
  unfold same_bindings. intros [A1 [A2 [A3 [A4 [A5 [A6 A7]]]]]].
  repeat split; congruence.
Qed.

Lemma View_congruence (m m' : model) :
  same_bindings m m' -> Choice m = Choice m' -> View m = View m'.
Proof.
  destruct m as [wd ht c ch s1 s2 s3 s4 s5 d].
  destruct m' as [wd' ht' c' ch' s1' s2' s3' s4' s5' d'].
  unfold same_bindings. cbn.
  intros [A1 [A2 [A3 [A4 [A5 [A6 A7]]]]]] Hc. subst.
  reflexivity.
Qed.

(** X8. The frame is a function of [Choice] and of the style fields only:
    two models that agree on them are drawn alike, whatever their width,
    height and other content.  In particular the frame after a message
    that is not a navigation key (a resize, [enter], a quit key, anything
    unknown) is the frame before it. *)
Theorem View_reads_Choice_and_styles_only
    (m m' : model) (msg : tea.Msg) (w : World) :
  (mainStyle m' = mainStyle m ->
   aboutStyle m' = aboutStyle m ->
   aboutNameStyle m' = aboutNameStyle m ->
   checkboxStyle m' = checkboxStyle m ->
   subtleStyle m' = subtleStyle m ->
   dotStyle m' = dotStyle m ->
   Choice m' = Choice m ->
   View m' = View m) /\
  (is_navigation msg = false -> View (model_of (Update m msg w)) = View m).
Proof.
  split.
  - intros A2 A3 A4 A5 A6 A7 Hc.
    destruct m as [wd ht c ch s1 s2 s3 s4 s5 d].
    destruct m' as [wd' ht' c' ch' s1' s2' s3' s4' s5' d'].
    cbn in *. subst. reflexivity.
  - intros Hn. apply View_congruence.
    + apply same_bindings_sym, Update_same_bindings.
    + apply Update_keeps_Choice, Hn.
Qed.

Lemma View_reads_Choice_and_styles_only_witness :
  View (model_of (Update (model_at 2) (tea.WindowSizeMsg 40 10)
                         (fresh_world (fun _ => true))))
  = View (model_at 2).
Proof.
  apply (View_reads_Choice_and_styles_only (model_at 2) (model_at 2)).
  reflexivity.
Defined.

(** X9. What a session shows depends on the terminal it paints on and on
    the navigation keys it received, and on nothing else: two sessions on
    the same terminal that went through message sequences with the same
    navigation keys show the same frame, whatever the sizes of their
    windows, the other messages in between and the launcher's outcomes. *)
Theorem session_frame_follows_terminal_and_navigation
    (s1 s2 : ssh.Session) (msgs1 msgs2 : list tea.Msg) (w1 w2 : World) :
  ssh.Terminal s1 = ssh.Terminal s2 ->
  filter is_navigation msgs1 = filter is_navigation msgs2 ->
  View (fst (updates (fst (teaHandler s1)) msgs1 w1))
  = View (fst (updates (fst (teaHandler s2)) msgs2 w2)).
Proof.
  intros Ht Hnav. apply View_congruence.
  - apply (same_bindings_trans _ (fst (teaHandler s1))).
    + apply same_bindings_sym, updates_same_bindings.
    + apply (same_bindings_trans _ (fst (teaHandler s2))).
      * unfold teaHandler, bubbletea.MakeRenderer. cbn. rewrite Ht.
        repeat split.
      * apply updates_same_bindings.
  - rewrite (updates_Choice_navigation msgs1 _ w1 w1).
    rewrite (updates_Choice_navigation msgs2 _ w2 w1).
    rewrite Hnav. apply updates_Choice_congruence. reflexivity.
Qed.

Lemma session_frame_follows_terminal_and_navigation_witness :
  View (fst (updates (fst (teaHandler session80x24))
                     [tea.KeyMsg "j"; tea.WindowSizeMsg 40 10; tea.KeyMsg "enter"]
                     (fresh_world (fun _ => true))))
  = View (fst (updates (fst (teaHandler
                               {| ssh.PtyWindow := {| ssh.Width := 0; ssh.Height := 0 |};
                                  ssh.Terminal := dumb_terminal |}))
                       [tea.KeyMsg "x"; tea.KeyMsg "j"]
                       (fresh_world (fun _ => false)))).
Proof.
  apply session_frame_follows_terminal_and_navigation; reflexivity.
Defined.

(** ** What a session opens *)

Lemma Update_world_not_enter (m : model) (msg : tea.Msg) (w : World) :
  is_enter msg = false -> world_of (Update m msg w) = w.
Proof.
  unfold is_enter. intros He.
  update_cases m msg; try reflexivity. rewrite Hk in He. discriminate He.
Qed.

Lemma Update_world_enter (m : model) (msg : tea.Msg) (w : World) :
  0 <= Choice m <= 3 -> is_enter msg = true ->
  exists url, In url menu_urls /\ world_of (Update m msg w) = launched w url.
Proof.
  unfold is_enter. intros Hc He.
  update_cases m msg; try (rewrite Hk in He); try discriminate He.
  destruct (entered_url_in_menu _ Hc) as [url [-> Hin]].
  exists url. auto.
Qed.

Lemma updates_opened (msgs : list tea.Msg) :
  forall (m : model) (w : World),
    0 <= Choice m <= 3 ->
    exists urls,
      opened (snd (updates m msgs w)) = (opened w ++ urls)%list /\
      length urls = length (filter is_enter msgs) /\
      Forall (fun url => In url menu_urls) urls.
Proof.
  induction msgs as [| msg rest IH]; intros m w Hc.
  - exists []. cbn. rewrite app_nil_r. auto.
  - rewrite updates_cons. cbn [filter].
    destruct (IH (model_of (Update m msg w)) (world_of (Update m msg w))
                 (Update_Choice_in_menu m msg w Hc)) as [urls [Ho [Hl Hin]]].
    destruct (is_enter msg) eqn:He.
    + destruct (Update_world_enter m msg w Hc He) as [url [Hurl Hw]].
      exists (url :: urls). rewrite Ho, Hw. cbn.
      rewrite <- app_assoc. cbn. auto.
    + exists urls. rewrite (Update_world_not_enter m msg w He) in Ho |- *.
      auto.
Qed.

(** X10. Over a whole session, starting from the model [teaHandler]
    builds, the program only ever adds to what it has handed to the
    browser launcher: one URL for each [enter] key in the sequence, no more
    and no fewer, and each of them one of the four URLs of the menu. *)
Theorem session_opens_one_menu_url_per_enter
    (s : ssh.Session) (msgs : list tea.Msg) (w : World) :
  exists urls,
    opened (snd (updates (fst (teaHandler s)) msgs w)) = (opened w ++ urls)%list /\
    length urls = length (filter is_enter msgs) /\
    Forall (fun url => In url [RESUME_URL; GITHUB_URL; LINKEDIN_URL; TWITTER_URL]) urls.
Proof. apply updates_opened. cbn. lia. Qed.

(** ** The pieces of the frame *)

(** X11. An unchecked checkbox line is the four bytes [[ ] ] followed by
    the label exactly as given, whatever the label contains (a percent
    sign in it is text, not a verb), and no style is applied to it; a
    checked one is the style applied to [[x] ] followed by the label. *)
Theorem checkbox_keeps_label_verbatim (style : lipgloss.Style) (label : string) :
  checkbox style label false = "[ ] " ++ label /\
  String.length (checkbox style label false) = (4 + String.length label)%nat /\
  checkbox style label true
  = lipgloss.paint (lipgloss.owner style) (lipgloss.rules style) ("[x] " ++ label).
Proof.
  assert (H : checkbox style label false = "[ ] " ++ label)
    by (unfold checkbox; cbn; rewrite append_empty_r; reflexivity).
  split; [exact H |]. split; [rewrite H; reflexivity | reflexivity].
Qed.

(** The about block is the about style applied to a text that starts
    at [Hi I'm] (the newlines next to the back quotes of the literal are
    trimmed away) and carries the name, painted in the name style, in the
    place of the verb. *)
Lemma View_about_nests_the_name (m : model) :
  View_about m
  = lipgloss.Render (aboutStyle m)
      ("Hi I'm " ++ lipgloss.Render (aboutNameStyle m) "Kaustubh Patange" ++
       "," ++ nl ++ nl ++
       "A self taught developer specialized in many software domains" ++ nl ++
       "including Mobile Apps, Web, Backend, Gen AI." ++ nl ++ nl ++
       "I'm currently working at an AI startup as a FullStack " ++ nl ++
       "Engineer." ++ nl ++ nl ++
       "I'm fluent in Python, Go, Typescript, Javascript, Kotlin.").
Proof. reflexivity. Qed.
